(** * Inverse statistics: waiting times of a price series

    A shallow embedding of [calculate_waiting_times_both_directions]
    (src/Inverse_Statistic.py, lines 122-162), of the script around it,
    and the properties of the first-passage computation that follow.

    The function is embedded twice, with the same structure and two
    arithmetics.
    - [f64]: prices and increments are binary64 numbers ([PrimFloat.float]),
      as in a numpy [float64] array; [+], [-], [>=] and [<=] are the IEEE
      754 operations, rounding included. Properties that depend on whether
      [data[i] + increment] is rounded back to [data[i]] are settled here.
    - The top level: prices and increments are exact rationals ([Q]) and
      the operations are exact. It carries the properties that do not
      depend on rounding (shape of the result, order of keys, reads and
      writes) or that rounding, being monotone and symmetric, preserves.

    Common modelling choices.
    - A one-dimensional numpy array is a [list]; [data[i:]] is [skipn i],
      [data[i]] is [nth_error] and raises [IndexError] out of range.
    - A waiting time is what the loop body appends: the integer returned by
      [np.argmax], or [np.inf]. [np.array(waiting_times)] keeps the values
      and their order (it only changes the element type when an [inf] is
      present), so the stored array is the list itself.
    - The function runs in a state-and-error monad whose state is the
      caller's [data] array; the lists it builds and the [results]
      dictionary are its own local objects and are threaded as values.
    - The dictionary is an insertion-ordered association list with Python's
      assignment rule: an existing key keeps its place and gets the new
      value. Keys are [(increment, direction)] with the direction a string,
      compared by numeric equality and string equality. *)

From Stdlib Require Import QArith List String Bool Arith Lia.
From Stdlib Require Import Lqa.
From Stdlib Require Import Floats.
Import ListNotations.

Local Open Scope nat_scope.

(** ** Values *)

(** What [waiting_time] is bound to in the loop body. *)
Inductive waiting : Type :=
| steps (j : nat)   (* np.argmax(condition) *)
| inf.              (* np.inf *)

Inductive PyError : Type :=
| IndexError
| ValueError.

(** A series in the exact reading: every sample a rational. The binary64
    reading is [f64.ndarray]. *)
Definition ndarray : Type := list Q.

(** ** The numpy operations the function uses *)

Module np.

(** [arr >= target], element-wise. *)
Definition ge (arr : ndarray) (target : Q) : list bool :=
  map (fun x => Qle_bool target x) arr.

(** [arr <= target], element-wise. *)
Definition le (arr : ndarray) (target : Q) : list bool :=
  map (fun x => Qle_bool x target) arr.

(** [np.any(condition)]. *)
Definition any (condition : list bool) : bool :=
  existsb (fun b => b) condition.

(** Index of the first [true], counted from [k]. *)
Fixpoint first_true (k : nat) (condition : list bool) : option nat :=
  match condition with
  | [] => None
  | b :: rest => if b then Some k else first_true (S k) rest
  end.

(** [np.argmax(condition)] on booleans: the first index holding the
    maximum, that is the first [true], or 0 when all are [false];
    [ValueError] on an empty array. *)
Definition argmax (condition : list bool) : PyError + nat :=
  match condition with
  | [] => inl ValueError
  | _ :: _ =>
      match first_true 0 condition with
      | Some j => inr j
      | None => inr 0
      end
  end.

End np.

(** ** The results dictionary *)

Module dict.

Definition key : Type := (Q * string)%type.

(** Equality of two tuple keys: numeric equality and string equality. *)
Definition key_eqb (a b : key) : bool :=
  Qeq_bool (fst a) (fst b) && String.eqb (snd a) (snd b).

Definition t : Type := list (key * list waiting).

(** [d[k] = v]. *)
Fixpoint set (k : key) (v : list waiting) (d : t) : t :=
  match d with
  | [] => [(k, v)]
  | (k', v') :: rest =>
      if key_eqb k' k then (k', v) :: rest
      else (k', v') :: set k v rest
  end.

(** [d.get(k)]. *)
Fixpoint get (k : key) (d : t) : option (list waiting) :=
  match d with
  | [] => None
  | (k', v') :: rest => if key_eqb k' k then Some v' else get k rest
  end.

Definition keys (d : t) : list key := map fst d.

End dict.

(** ** State and error monad over the caller's array *)

Definition Py (A : Type) : Type := ndarray -> PyError + (A * ndarray).

Definition ret {A : Type} (a : A) : Py A := fun data => inr (a, data).

Definition raise {A : Type} (e : PyError) : Py A := fun _ => inl e.

Definition bind {A B : Type} (m : Py A) (f : A -> Py B) : Py B :=
  fun data =>
    match m data with
    | inl e => inl e
    | inr (a, data') => f a data'
    end.

Notation "'let*' x ':=' m 'in' k" := (bind m (fun x => k))
  (at level 10, x name, m at level 100, k at level 200).

(** A pure library call that may raise. *)
Definition lift {A : Type} (r : PyError + A) : Py A :=
  match r with
  | inl e => raise e
  | inr a => ret a
  end.

(** [len(data)]. *)
Definition len_data : Py nat := fun data => inr (List.length data, data).

(** [data[i]]. *)
Definition data_item (i : nat) : Py Q :=
  fun data =>
    match nth_error data i with
    | Some x => inr (x, data)
    | None => inl IndexError
    end.

(** [data[i:]]. *)
Definition data_from (i : nat) : Py ndarray :=
  fun data => inr (skipn i data, data).

(** [for x in xs: s = body(x, s)]. *)
Fixpoint for_each {A S : Type} (xs : list A) (body : A -> S -> Py S) (s : S) : Py S :=
  match xs with
  | [] => ret s
  | x :: rest => let* s' := body x s in for_each rest body s'
  end.

(** ** The function *)

(** Lines 141-147: one pass of the [increase] loop; [acc] is
    [waiting_times_increase]. The target is the exact sum; with the
    rounded sum of line 141 the pass is [f64.increase_body]. *)
Definition increase_body (increment : Q) (i : nat) (acc : list waiting) : Py (list waiting) :=
  let* x := data_item i in
  let target := (x + increment)%Q in
  let* future := data_from i in
  let condition := np.ge future target in
  let* waiting_time :=
    (if np.any condition
     then let* j := lift (np.argmax condition) in ret (steps j)
     else ret inf) in
  ret (acc ++ [waiting_time]).

(** Lines 153-159: one pass of the [decrease] loop. The target is the
    exact difference; with the rounded difference of line 153 the pass is
    [f64.decrease_body]. *)
Definition decrease_body (increment : Q) (i : nat) (acc : list waiting) : Py (list waiting) :=
  let* x := data_item i in
  let target := (x - increment)%Q in
  let* future := data_from i in
  let condition := np.le future target in
  let* waiting_time :=
    (if np.any condition
     then let* j := lift (np.argmax condition) in ret (steps j)
     else ret inf) in
  ret (acc ++ [waiting_time]).

(** Lines 138-160: the body of [for increment in increments]. *)
Definition increment_body (n : nat) (increment : Q) (results : dict.t) : Py dict.t :=
  let* waiting_times_increase := for_each (seq 0 n) (increase_body increment) [] in
  let results := dict.set (increment, "increase"%string) waiting_times_increase results in
  let* waiting_times_decrease := for_each (seq 0 n) (decrease_body increment) [] in
  let results := dict.set (increment, "decrease"%string) waiting_times_decrease results in
  ret results.

Definition calculate_waiting_times_both_directions (increments : list Q) : Py dict.t :=
  let results := [] in
  let* n := len_data in
  let* results := for_each increments (increment_body n) results in
  ret results.

(** Two calls in a row on the same array, the second starting from the
    state the first one left. *)
Definition run_twice (increments : list Q) : Py (dict.t * dict.t) :=
  let* first := calculate_waiting_times_both_directions increments in
  let* second := calculate_waiting_times_both_directions increments in
  ret (first, second).

(** ** Reading the result *)

Inductive direction : Type :=
| Rising
| Falling.

(** The string the function puts in the key for each direction. *)
Definition direction_name (d : direction) : string :=
  match d with
  | Rising => "increase"%string
  | Falling => "decrease"%string
  end.

(** [target] as computed on lines 141 and 153. *)
Definition target_of (d : direction) (x increment : Q) : Q :=
  match d with
  | Rising => (x + increment)%Q
  | Falling => (x - increment)%Q
  end.

(** The comparison of lines 142 and 154 on one element [y]. *)
Definition crosses (d : direction) (target y : Q) : bool :=
  match d with
  | Rising => Qle_bool target y
  | Falling => Qle_bool y target
  end.

(** The loop body of a direction: lines 141-147 or lines 153-159. *)
Definition loop_body (d : direction) : Q -> nat -> list waiting -> Py (list waiting) :=
  match d with
  | Rising => increase_body
  | Falling => decrease_body
  end.

(** [results[(threshold, direction)][i]] of the dictionary the function
    returns; [None] when the call raises, the key is absent or [i] is out
    of range. *)
Definition entry (data : ndarray) (increments : list Q)
           (threshold : Q) (d : direction) (i : nat) : option waiting :=
  match calculate_waiting_times_both_directions increments data with
  | inl _ => None
  | inr (results, _) =>
      match dict.get (threshold, direction_name d) results with
      | Some waiting_times => nth_error waiting_times i
      | None => None
      end
  end.

(** The value one loop pass appends, as a function of the array. *)
Definition cell (data : ndarray) (d : direction) (increment : Q) (i : nat) : waiting :=
  match nth_error data i with
  | None => inf
  | Some x =>
      match np.first_true 0 (map (crosses d (target_of d x increment)) (skipn i data)) with
      | Some j => steps j
      | None => inf
      end
  end.

(** The array stored under one key. *)
Definition column (data : ndarray) (d : direction) (increment : Q) : list waiting :=
  map (cell data d increment) (seq 0 (List.length data)).

(** The dictionary after the loop over [increments], started from [results]. *)
Definition filled (data : ndarray) (increments : list Q) (results : dict.t) : dict.t :=
  fold_left
    (fun r increment =>
       dict.set (increment, "decrease"%string) (column data Falling increment)
         (dict.set (increment, "increase"%string) (column data Rising increment) r))
    increments results.

(** ** Crossings *)

(** Does the sample [j] steps after [i] satisfy the crossing condition? *)
Definition crossing_at (data : ndarray) (d : direction) (threshold : Q) (i j : nat) : bool :=
  match nth_error data i, nth_error data (i + j) with
  | Some x, Some y => crosses d (target_of d x threshold) y
  | _, _ => false
  end.


(** ** The script around the function *)

(** No two increments of the list are numerically equal. *)
Fixpoint distinct (increments : list Q) : bool :=
  match increments with
  | [] => true
  | t :: rest => forallb (fun t' => negb (Qeq_bool t t')) rest && distinct rest
  end.

Module script.

(** Line 197: [data = prices[:125000]]. *)
Definition data (prices : ndarray) : ndarray := firstn 125000 prices.

(** Line 198. *)
Definition increments : list Q := [5; 10; 20]%Q.

(** Line 199: the dictionary bound to [waiting_times_dict]. *)
Definition waiting_times_dict (prices : ndarray) : PyError + dict.t :=
  match calculate_waiting_times_both_directions increments (data prices) with
  | inl e => inl e
  | inr (results, _) => inr results
  end.

(** Line 339: the values [key[0] for key in waiting_times_dict.keys()]
    that the set is built from. *)
Definition key_increments (d : dict.t) : list Q := map fst (dict.keys d).

(** Lines 341-342: [d.get(k, np.array([]))]. *)
Definition get_or_empty (k : dict.key) (d : dict.t) : list waiting :=
  match dict.get k d with
  | Some waiting_times => waiting_times
  | None => []
  end.

(** [np.isfinite] on one entry. *)
Definition isfinite (w : waiting) : bool :=
  match w with
  | steps _ => true
  | inf => false
  end.

(** Lines 346-347: [arr[np.isfinite(arr)]], the entries under a true mask,
    in order. *)
Definition cleaned (waiting_times : list waiting) : list waiting :=
  filter isfinite waiting_times.

(** Lines 341-347 for one [increment] of the loop: the two cleaned arrays. *)
Definition cleaned_waiting_times (d : dict.t) (increment : Q) : list waiting * list waiting :=
  let waiting_times_increase := get_or_empty (increment, "increase"%string) d in
  let waiting_times_decrease := get_or_empty (increment, "decrease"%string) d in
  (cleaned waiting_times_increase, cleaned waiting_times_decrease).


End script.

(** ** The function in binary64 *)

(** The same function with the arithmetic of a numpy [float64] array.
    An increment is the binary64 number that [data[i] + increment]
    converts the Python number to; a NaN increment is outside the model
    (Python compares a NaN key by identity). *)

Module f64.

Definition ndarray : Type := list float.

(** [arr >= target], element-wise. *)
Definition ge (arr : ndarray) (target : float) : list bool :=
  map (fun x => PrimFloat.leb target x) arr.

(** [arr <= target], element-wise. *)
Definition le (arr : ndarray) (target : float) : list bool :=
  map (fun x => PrimFloat.leb x target) arr.

Definition key : Type := (float * string)%type.

(** Equality of two tuple keys; the increments are compared as numbers,
    so [0.0] and [-0.0] are one key. *)
Definition key_eqb (a b : key) : bool :=
  PrimFloat.eqb (fst a) (fst b) && String.eqb (snd a) (snd b).

Definition dict : Type := list (key * list waiting).

(** [d[k] = v]. *)
Fixpoint set (k : key) (v : list waiting) (d : dict) : dict :=
  match d with
  | [] => [(k, v)]
  | (k', v') :: rest =>
      if key_eqb k' k then (k', v) :: rest
      else (k', v') :: set k v rest
  end.

(** [d.get(k)]. *)
Fixpoint get (k : key) (d : dict) : option (list waiting) :=
  match d with
  | [] => None
  | (k', v') :: rest => if key_eqb k' k then Some v' else get k rest
  end.

Definition Py (A : Type) : Type := ndarray -> PyError + (A * ndarray).

Definition ret {A : Type} (a : A) : Py A := fun data => inr (a, data).

Definition raise {A : Type} (e : PyError) : Py A := fun _ => inl e.

Definition bind {A B : Type} (m : Py A) (f : A -> Py B) : Py B :=
  fun data =>
    match m data with
    | inl e => inl e
    | inr (a, data') => f a data'
    end.

Definition lift {A : Type} (r : PyError + A) : Py A :=
  match r with
  | inl e => raise e
  | inr a => ret a
  end.

(** [len(data)]. *)
Definition len_data : Py nat := fun data => inr (List.length data, data).

(** [data[i]]. *)
Definition data_item (i : nat) : Py float :=
  fun data =>
    match nth_error data i with
    | Some x => inr (x, data)
    | None => inl IndexError
    end.

(** [data[i:]]. *)
Definition data_from (i : nat) : Py ndarray :=
  fun data => inr (skipn i data, data).

(** [for x in xs: s = body(x, s)]. *)
Fixpoint for_each {A S : Type} (xs : list A) (body : A -> S -> Py S) (s : S) : Py S :=
  match xs with
  | [] => ret s
  | x :: rest => bind (body x s) (fun s' => for_each rest body s')
  end.

(** Lines 141-147: one pass of the [increase] loop. *)
Definition increase_body (increment : float) (i : nat) (acc : list waiting) : Py (list waiting) :=
  bind (data_item i) (fun x =>
  let target := PrimFloat.add x increment in
  bind (data_from i) (fun future =>
  let condition := ge future target in
  bind (if np.any condition
        then bind (lift (np.argmax condition)) (fun j => ret (steps j))
        else ret inf) (fun waiting_time =>
  ret (acc ++ [waiting_time])))).

(** Lines 153-159: one pass of the [decrease] loop. *)
Definition decrease_body (increment : float) (i : nat) (acc : list waiting) : Py (list waiting) :=
  bind (data_item i) (fun x =>
  let target := PrimFloat.sub x increment in
  bind (data_from i) (fun future =>
  let condition := le future target in
  bind (if np.any condition
        then bind (lift (np.argmax condition)) (fun j => ret (steps j))
        else ret inf) (fun waiting_time =>
  ret (acc ++ [waiting_time])))).

(** Lines 138-160: the body of [for increment in increments]. *)
Definition increment_body (n : nat) (increment : float) (results : dict) : Py dict :=
  bind (for_each (seq 0 n) (increase_body increment) []) (fun waiting_times_increase =>
  let results := set (increment, "increase"%string) waiting_times_increase results in
  bind (for_each (seq 0 n) (decrease_body increment) []) (fun waiting_times_decrease =>
  let results := set (increment, "decrease"%string) waiting_times_decrease results in
  ret results)).

Definition calculate_waiting_times_both_directions (increments : list float) : Py dict :=
  let results := [] in
  bind len_data (fun n =>
  bind (for_each increments (increment_body n) results) (fun results =>
  ret results)).

(** [target] as computed on lines 141 and 153. *)
Definition target_of (d : direction) (x increment : float) : float :=
  match d with
  | Rising => PrimFloat.add x increment
  | Falling => PrimFloat.sub x increment
  end.

(** The comparison of lines 142 and 154 on one element [y]. *)
Definition crosses (d : direction) (target y : float) : bool :=
  match d with
  | Rising => PrimFloat.leb target y
  | Falling => PrimFloat.leb y target
  end.

(** [results[(threshold, direction)][i]] of the dictionary the function
    returns; [None] when the call raises, the key is absent or [i] is out
    of range. *)
Definition entry (data : ndarray) (increments : list float)
           (threshold : float) (d : direction) (i : nat) : option waiting :=
  match calculate_waiting_times_both_directions increments data with
  | inl _ => None
  | inr (results, _) =>
      match get (threshold, direction_name d) results with
      | Some waiting_times => nth_error waiting_times i
      | None => None
      end
  end.

(** The value one loop pass appends, as a function of the array. *)
Definition cell (data : ndarray) (d : direction) (increment : float) (i : nat) : waiting :=
  match nth_error data i with
  | None => inf
  | Some x =>
      match np.first_true 0 (map (crosses d (target_of d x increment)) (skipn i data)) with
      | Some j => steps j
      | None => inf
      end
  end.

(** The array stored under one key. *)
Definition column (data : ndarray) (d : direction) (increment : float) : list waiting :=
  map (cell data d increment) (seq 0 (List.length data)).

(** The dictionary after the loop over [increments], started from [results]. *)
Definition filled (data : ndarray) (increments : list float) (results : dict) : dict :=
  fold_left
    (fun r increment =>
       set (increment, "decrease"%string) (column data Falling increment)
         (set (increment, "increase"%string) (column data Rising increment) r))
    increments results.

(** Does the sample [j] steps after [i] satisfy the crossing condition,
    with the target computed as the code computes it? *)
Definition crossing_at (data : ndarray) (d : direction) (threshold : float) (i j : nat) : bool :=
  match nth_error data i, nth_error data (i + j) with
  | Some x, Some y => crosses d (target_of d x threshold) y
  | _, _ => false
  end.

(** The naive forward scan of the specification: try the offsets
    1, 2, ..., n-1-i in order and stop at the first that crosses. *)
Definition naive_forward_scan (data : ndarray) (d : direction) (threshold : float) (i : nat) : waiting :=
  match find (crossing_at data d threshold i) (seq 1 (List.length data - 1 - i)) with
  | Some j => steps j
  | None => inf
  end.

(** [w] is the first-passage result at [i]: the least offset [j >= 1] that
    crosses, or [inf] when no offset up to [n-1-i] does. *)
Definition first_passage (data : ndarray) (d : direction) (threshold : float)
           (i : nat) (w : waiting) : Prop :=
  match w with
  | steps j =>
      1 <= j /\ i + j < List.length data /\
      crossing_at data d threshold i j = true /\
      (forall j', 1 <= j' -> j' < j -> crossing_at data d threshold i j' = false)
  | inf =>
      forall j, 1 <= j -> j <= List.length data - 1 - i ->
                crossing_at data d threshold i j = false
  end.

End f64.

(** * Properties *)

(** ** The numpy operations *)

Lemma any_false_first_true (c : list bool) (k : nat) :
  np.any c = false -> np.first_true k c = None.
Proof.
  revert k; induction c as [|b c IH]; intros k H; simpl in *.
  - reflexivity.
  - destruct b; simpl in H; [discriminate | now apply IH].
Qed.

Lemma any_true_first_true (c : list bool) (k : nat) :
  np.any c = true -> exists j, np.first_true k c = Some j.
Proof.
  revert k; induction c as [|b c IH]; intros k H; simpl in *.
  - discriminate.
  - destruct b; simpl in H; [now exists k | now apply IH].
Qed.

(** The branch on [np.any] followed by [np.argmax] returns the first
    [true], or [inf]. *)
Lemma guarded_argmax (c : list bool) (data : ndarray) :
  (if np.any c
   then let* j := lift (np.argmax c) in ret (steps j)
   else ret inf) data
  = inr (match np.first_true 0 c with Some j => steps j | None => inf end, data).
Proof.
  destruct (np.any c) eqn:E.
  - destruct (any_true_first_true c 0 E) as [j Hj].
    destruct c as [|b c]; [discriminate|].
    unfold np.argmax. rewrite Hj. reflexivity.
  - rewrite (any_false_first_true c 0 E). reflexivity.
Qed.

Lemma first_true_Some (c : list bool) (k j : nat) :
  np.first_true k c = Some j ->
  k <= j /\ nth_error c (j - k) = Some true /\
  (forall m, m < j - k -> nth_error c m = Some false).
Proof.
  revert k; induction c as [|b c IH]; intros k H; simpl in H.
  - discriminate.
  - destruct b.
    + injection H as <-. rewrite Nat.sub_diag. repeat split; auto. intros m Hm; lia.
    + destruct (IH _ H) as (Hle & Hj & Hlt).
      replace (j - k) with (S (j - S k)) by lia.
      repeat split; [lia | exact Hj |].
      intros [|m] Hm; simpl; [reflexivity | apply Hlt; lia].
Qed.

Lemma first_true_None (c : list bool) (k m : nat) :
  np.first_true k c = None -> m < List.length c -> nth_error c m = Some false.
Proof.
  revert k m; induction c as [|b c IH]; intros k m H Hm; simpl in *.
  - lia.
  - destruct b; [discriminate|].
    destruct m as [|m]; simpl; [reflexivity | apply (IH (S k)); [exact H | lia]].
Qed.

(** ** The loops *)

Lemma increase_body_run (data : ndarray) (increment : Q) (i : nat) (acc : list waiting) :
  i < List.length data ->
  increase_body increment i acc data = inr (acc ++ [cell data Rising increment i], data).
Proof.
  intros Hi. unfold increase_body, cell, bind, data_item, data_from.
  destruct (nth_error data i) as [x|] eqn:E.
  - fold (np.ge (skipn i data) (x + increment)).
    rewrite guarded_argmax. reflexivity.
  - apply nth_error_None in E. lia.
Qed.

Lemma decrease_body_run (data : ndarray) (increment : Q) (i : nat) (acc : list waiting) :
  i < List.length data ->
  decrease_body increment i acc data = inr (acc ++ [cell data Falling increment i], data).
Proof.
  intros Hi. unfold decrease_body, cell, bind, data_item, data_from.
  destruct (nth_error data i) as [x|] eqn:E.
  - fold (np.le (skipn i data) (x - increment)).
    rewrite guarded_argmax. reflexivity.
  - apply nth_error_None in E. lia.
Qed.

(** A loop whose every pass appends [f x] and leaves the array alone
    appends [map f xs]. *)
Lemma for_each_append {A B : Type} (f : A -> B) (body : A -> list B -> Py (list B))
      (data : ndarray) (xs : list A) :
  (forall x acc, In x xs -> body x acc data = inr (acc ++ [f x], data)) ->
  forall acc, for_each xs body acc data = inr (acc ++ map f xs, data).
Proof.
  induction xs as [|x xs IH]; intros Hbody acc; simpl.
  - now rewrite app_nil_r.
  - unfold bind. rewrite Hbody by now left.
    rewrite IH by (intros; apply Hbody; now right).
    now rewrite <- app_assoc.
Qed.

Lemma increment_body_run (data : ndarray) (increment : Q) (results : dict.t) :
  increment_body (List.length data) increment results data
  = inr (dict.set (increment, "decrease"%string) (column data Falling increment)
           (dict.set (increment, "increase"%string) (column data Rising increment) results),
         data).
Proof.
  unfold increment_body, bind.
  rewrite (for_each_append (cell data Rising increment)).
  2:{ intros i acc Hi. apply increase_body_run. apply in_seq in Hi. lia. }
  rewrite (for_each_append (cell data Falling increment)).
  2:{ intros i acc Hi. apply decrease_body_run. apply in_seq in Hi. lia. }
  reflexivity.
Qed.

Lemma increments_loop_run (data : ndarray) (increments : list Q) (results : dict.t) :
  for_each increments (increment_body (List.length data)) results data
  = inr (filled data increments results, data).
Proof.
  revert results; induction increments as [|t ts IH]; intros results; simpl.
  - reflexivity.
  - unfold bind. rewrite increment_body_run. apply IH.
Qed.

(** The call returns normally, with the dictionary [filled] computes and
    with the array it was given. *)
Lemma calculate_run (data : ndarray) (increments : list Q) :
  calculate_waiting_times_both_directions increments data
  = inr (filled data increments [], data).
Proof.
  unfold calculate_waiting_times_both_directions, bind, len_data.
  rewrite increments_loop_run. reflexivity.
Qed.

(** ** The dictionary *)

Lemma key_eqb_sym (a b : dict.key) :
  dict.key_eqb a b = true -> dict.key_eqb b a = true.
Proof.
  unfold dict.key_eqb. intros H. apply andb_true_iff in H as [Hq Hs].
  apply andb_true_iff; split.
  - now apply Qeq_bool_sym.
  - now rewrite String.eqb_sym.
Qed.

Lemma key_eqb_trans (a b c : dict.key) :
  dict.key_eqb a b = true -> dict.key_eqb b c = true -> dict.key_eqb a c = true.
Proof.
  unfold dict.key_eqb. intros H1 H2.
  apply andb_true_iff in H1 as [Hq1 Hs1]. apply andb_true_iff in H2 as [Hq2 Hs2].
  apply andb_true_iff; split.
  - now apply Qeq_bool_trans with (fst b).
  - apply String.eqb_eq in Hs1, Hs2. apply String.eqb_eq. congruence.
Qed.

(** Reading after an assignment. *)
Lemma get_set (k k' : dict.key) (v : list waiting) (d : dict.t) :
  dict.get k (dict.set k' v d) = if dict.key_eqb k' k then Some v else dict.get k d.
Proof.
  induction d as [|[kd vd] rest IH]; simpl.
  - reflexivity.
  - destruct (dict.key_eqb kd k') eqn:E1; simpl.
    + destruct (dict.key_eqb kd k) eqn:E2.
      * now rewrite (key_eqb_trans _ _ _ (key_eqb_sym _ _ E1) E2).
      * destruct (dict.key_eqb k' k) eqn:E3; [|reflexivity].
        now rewrite (key_eqb_trans _ _ _ E1 E3) in E2.
    + destruct (dict.key_eqb kd k) eqn:E2; [|exact IH].
      destruct (dict.key_eqb k' k) eqn:E3; [|reflexivity].
      now rewrite (key_eqb_trans _ _ _ E2 (key_eqb_sym _ _ E3)) in E1.
Qed.

(** An assignment adds at most its own key. *)
Lemma keys_set (k k' : dict.key) (v : list waiting) (d : dict.t) :
  In k (dict.keys (dict.set k' v d)) -> In k (dict.keys d) \/ k = k'.
Proof.
  unfold dict.keys. induction d as [|[kd vd] rest IH]; simpl.
  - intros [H|[]]; auto.
  - destruct (dict.key_eqb kd k'); simpl; intros [H|H]; auto.
    destruct (IH H); auto.
Qed.

(** ** Equal increments give equal columns *)

Lemma crosses_target_compat (d : direction) (x t t' y : Q) :
  (t == t')%Q ->
  crosses d (target_of d x t) y = crosses d (target_of d x t') y.
Proof.
  intros H. destruct d; simpl.
  - apply Qleb_comp; [now rewrite H | reflexivity].
  - apply Qleb_comp; [reflexivity | now rewrite H].
Qed.

Lemma cell_compat (data : ndarray) (d : direction) (t t' : Q) (i : nat) :
  (t == t')%Q -> cell data d t i = cell data d t' i.
Proof.
  intros H. unfold cell. destruct (nth_error data i) as [x|]; [|reflexivity].
  replace (map (crosses d (target_of d x t)) (skipn i data))
    with (map (crosses d (target_of d x t')) (skipn i data)); [reflexivity|].
  apply map_ext. intros y. symmetry. now apply crosses_target_compat.
Qed.

Lemma column_compat (data : ndarray) (d : direction) (t t' : Q) :
  (t == t')%Q -> column data d t = column data d t'.
Proof.
  intros H. unfold column. apply map_ext. intros i. now apply cell_compat.
Qed.

(** ** The dictionary the function returns *)

(** Reading a key after one pass of the loop over [increments]. *)
Lemma get_after_increment (data : ndarray) (t0 t : Q) (d : direction) (r : dict.t) :
  dict.get (t, direction_name d)
    (dict.set (t0, "decrease"%string) (column data Falling t0)
       (dict.set (t0, "increase"%string) (column data Rising t0) r))
  = if Qeq_bool t0 t then Some (column data d t) else dict.get (t, direction_name d) r.
Proof.
  rewrite !get_set. unfold dict.key_eqb. simpl fst; simpl snd.
  destruct (Qeq_bool t0 t) eqn:E.
  - apply Qeq_bool_iff in E.
    destruct d; simpl; now rewrite (column_compat _ _ _ _ E).
  - destruct d; reflexivity.
Qed.

Lemma filled_get (data : ndarray) (increments : list Q) (t : Q) (d : direction) :
  forall r,
    In t increments \/ dict.get (t, direction_name d) r = Some (column data d t) ->
    dict.get (t, direction_name d) (filled data increments r) = Some (column data d t).
Proof.
  induction increments as [|t0 ts IH]; intros r H; simpl.
  - destruct H as [[]|H]. exact H.
  - apply IH. destruct H as [[->|H]|H]; auto; right; rewrite get_after_increment.
    + now rewrite Qeq_bool_refl.
    + now destruct (Qeq_bool t0 t).
Qed.

Lemma filled_keys (data : ndarray) (increments : list Q) (k : dict.key) :
  forall r,
    In k (dict.keys (filled data increments r)) ->
    In k (dict.keys r) \/
    (In (fst k) increments /\ (snd k = "increase"%string \/ snd k = "decrease"%string)).
Proof.
  induction increments as [|t0 ts IH]; intros r H; simpl in *.
  - now left.
  - destruct (IH _ H) as [Hk|[Hin Hs]]; [|now auto].
    apply keys_set in Hk as [Hk | ->]; [|simpl; now auto].
    apply keys_set in Hk as [Hk | ->]; [now left | simpl; now auto].
Qed.

Lemma length_column (data : ndarray) (d : direction) (t : Q) :
  List.length (column data d t) = List.length data.
Proof. unfold column. now rewrite length_map, length_seq. Qed.

Lemma nth_error_column (data : ndarray) (d : direction) (t : Q) (i : nat) :
  i < List.length data -> nth_error (column data d t) i = Some (cell data d t i).
Proof.
  intros Hi. unfold column. rewrite nth_error_map, nth_error_seq.
  destruct (Nat.ltb_spec i (List.length data)); [reflexivity | lia].
Qed.

(** The entry read back from the returned dictionary is the value the loop
    pass at [i] appended. *)
Lemma entry_cell (data : ndarray) (increments : list Q) (t : Q) (d : direction) (i : nat) :
  In t increments -> i < List.length data ->
  entry data increments t d i = Some (cell data d t i).
Proof.
  intros Ht Hi. unfold entry. rewrite calculate_run.
  rewrite filled_get by now left. now apply nth_error_column.
Qed.

(** ** The condition array and the start point *)


(** Element [m] of [condition] at start index [i] is the crossing test at
    offset [m]. *)
Lemma condition_nth (data : ndarray) (d : direction) (t x : Q) (i m : nat) :
  nth_error data i = Some x -> i + m < List.length data ->
  nth_error (map (crosses d (target_of d x t)) (skipn i data)) m
  = Some (crossing_at data d t i m).
Proof.
  intros Hx Hm. rewrite nth_error_map, nth_error_skipn.
  unfold crossing_at. rewrite Hx.
  destruct (nth_error data (i + m)) as [y|] eqn:E; [reflexivity|].
  apply nth_error_None in E. lia.
Qed.

Lemma condition_length (data : ndarray) (d : direction) (target : Q) (i : nat) :
  List.length (map (crosses d target) (skipn i data)) = List.length data - i.
Proof. now rewrite length_map, length_skipn. Qed.


(** ** Searching a range of offsets *)

Lemma find_seq_least (p : nat -> bool) (k m j : nat) :
  find p (seq k m) = Some j -> forall j', k <= j' -> j' < j -> p j' = false.
Proof.
  revert k; induction m as [|m IH]; intros k H j' Hk Hj; simpl in H.
  - discriminate.
  - destruct (p k) eqn:E.
    + injection H as <-. lia.
    + destruct (Nat.eq_dec j' k) as [->|Hne]; [exact E|].
      apply (IH (S k)); [exact H | lia | exact Hj].
Qed.

(** ** A larger target is crossed no earlier *)



(** ** Lengths of the stored arrays *)

Lemma set_lengths (n : nat) (k : dict.key) (v : list waiting) (d : dict.t) :
  List.length v = n ->
  Forall (fun kv => List.length (snd kv) = n) d ->
  Forall (fun kv => List.length (snd kv) = n) (dict.set k v d).
Proof.
  intros Hv. induction 1 as [|[kd vd] rest Hkd Hrest IH]; simpl.
  - constructor; [exact Hv | constructor].
  - destruct (dict.key_eqb kd k); constructor; auto.
Qed.

Lemma filled_lengths (data : ndarray) (increments : list Q) :
  forall r,
    Forall (fun kv => List.length (snd kv) = List.length data) r ->
    Forall (fun kv => List.length (snd kv) = List.length data) (filled data increments r).
Proof.
  induction increments as [|t ts IH]; intros r Hr; simpl.
  - exact Hr.
  - apply IH. repeat apply set_lengths; auto using length_column.
Qed.

(** One pass of either loop, started from an empty list, yields the
    singleton of its cell. *)
Lemma loop_body_run (data : ndarray) (d : direction) (t : Q) (i : nat) :
  i < List.length data ->
  loop_body d t i [] data = inr ([cell data d t i], data).
Proof.
  intros Hi. destruct d; simpl.
  - now rewrite increase_body_run.
  - now rewrite decrease_body_run.
Qed.

(** * The claims *)





(** C7. For every series and every list of thresholds the call returns a
    dictionary that holds, for each configured threshold and each of the
    two directions, an array of exactly [n] entries whose entry [i] is the
    waiting time the loop pass at start index [i] computes; and every key
    of the dictionary is a configured threshold paired with ["increase"]
    or ["decrease"]. *)
Theorem matrix_has_one_entry_per_start_index (data : ndarray) (increments : list Q) :
  exists results,
    calculate_waiting_times_both_directions increments data = inr (results, data) /\
    (forall t d, In t increments ->
       exists waiting_times,
         dict.get (t, direction_name d) results = Some waiting_times /\
         List.length waiting_times = List.length data /\
         forall i, i < List.length data ->
           exists w, nth_error waiting_times i = Some w /\
                     loop_body d t i [] data = inr ([w], data)) /\
    (forall k, In k (dict.keys results) ->
       In (fst k) increments /\
       (snd k = "increase"%string \/ snd k = "decrease"%string)).
Proof.
  exists (filled data increments []). split; [apply calculate_run|]. split.
  - intros t d Hin. exists (column data d t).
    split; [apply filled_get; now left|]. split; [apply length_column|].
    intros i Hi. exists (cell data d t i).
    split; [now apply nth_error_column | now apply loop_body_run].
  - intros k Hk. apply filled_keys in Hk as [[]|Hk]. exact Hk.
Qed.

(** C8. The computation is repeatable: a second call on the same array
    and the same thresholds, made after the first returned, yields the same
    dictionary as the first, entry for entry. *)
Theorem second_run_gives_same_matrix (data : ndarray) (increments : list Q) :
  exists results,
    calculate_waiting_times_both_directions increments data = inr (results, data) /\
    run_twice increments data = inr ((results, results), data) /\
    forall t d i, entry data increments t d i
                  = match dict.get (t, direction_name d) results with
                    | Some waiting_times => nth_error waiting_times i
                    | None => None
                    end.
Proof.
  exists (filled data increments []). split; [apply calculate_run|]. split.
  - unfold run_twice, bind. now rewrite !calculate_run.
  - intros t d i. unfold entry. now rewrite calculate_run.
Qed.

(** C9. The input array is not mutated: the call returns, and the array
    after the call has the same length and the same element at every
    index as before it. *)
Theorem input_series_unchanged (data : ndarray) (increments : list Q) :
  exists results data',
    calculate_waiting_times_both_directions increments data = inr (results, data') /\
    List.length data' = List.length data /\
    forall i, nth_error data' i = nth_error data i.
Proof.
  exists (filled data increments []), data.
  split; [apply calculate_run | split; reflexivity].
Qed.

(** C2, as stated, fails: a threshold of 0 and a repeated threshold are
    both accepted and a matrix is returned. *)
Lemma invalid_thresholds_are_accepted :
  calculate_waiting_times_both_directions [0%Q] [1; 2]%Q
  = inr ([((0%Q, "increase"%string), [steps 0; steps 0]);
          ((0%Q, "decrease"%string), [steps 0; steps 0])], [1; 2]%Q) /\
  calculate_waiting_times_both_directions [5%Q; 5%Q] [1; 7]%Q
  = inr ([((5%Q, "increase"%string), [steps 1; inf]);
          ((5%Q, "decrease"%string), [inf; inf])], [1; 7]%Q).
Proof. split; reflexivity. Qed.

(** C2, amended. No threshold is rejected: for every list of thresholds,
    with values [<= 0] and repetitions allowed, the call raises nothing and
    the dictionary it returns holds, under every configured threshold and
    direction, the column of waiting times computed for them. *)
Theorem thresholds_are_not_validated (data : ndarray) (increments : list Q) :
  exists results,
    calculate_waiting_times_both_directions increments data = inr (results, data) /\
    forall t d, In t increments ->
      dict.get (t, direction_name d) results = Some (column data d t).
Proof.
  exists (filled data increments []). split; [apply calculate_run|].
  intros t d Hin. apply filled_get. now left.
Qed.

(** C3, as stated, fails: on the empty series the call returns a
    dictionary of empty arrays instead of failing. *)
Lemma empty_series_is_accepted :
  calculate_waiting_times_both_directions [5%Q] []
  = inr ([((5%Q, "increase"%string), []); ((5%Q, "decrease"%string), [])], []).
Proof. reflexivity. Qed.

(** C3, amended. The call fails for no series, whatever its length: it
    returns a dictionary that holds, under every configured threshold and
    both directions, an array with one entry per start index, [n] in all,
    and no other arrays; so for [n >= 1] a full matrix, and for [n = 0] an
    empty array under every key. *)
Theorem never_fails_on_any_length (data : ndarray) (increments : list Q) :
  exists results,
    calculate_waiting_times_both_directions increments data = inr (results, data) /\
    (forall t d, In t increments ->
       exists waiting_times,
         dict.get (t, direction_name d) results = Some waiting_times /\
         List.length waiting_times = List.length data /\
         (forall i, i < List.length data ->
            exists w, nth_error waiting_times i = Some w) /\
         (data = [] -> waiting_times = [])) /\
    Forall (fun kv => List.length (snd kv) = List.length data) results /\
    (forall k, In k (dict.keys results) -> In (fst k) increments).
Proof.
  exists (filled data increments []). split; [apply calculate_run|]. split; [|split].
  - intros t d Hin. exists (column data d t).
    split; [apply filled_get; now left|]. split; [apply length_column|]. split.
    + intros i Hi. exists (cell data d t i). now apply nth_error_column.
    + now intros ->.
  - apply filled_lengths. constructor.
  - intros k Hk. apply filled_keys in Hk as [[]|[Hk _]]. exact Hk.
Qed.

(** * Further properties of the function *)

(** ** What an entry says, for any threshold *)


Lemma cell_first_crossing (data : ndarray) (d : direction) (t : Q) (i : nat) :
  i < List.length data ->
  match cell data d t i with
  | steps j =>
      i + j < List.length data /\
      crossing_at data d t i j = true /\
      (forall j', j' < j -> crossing_at data d t i j' = false)
  | inf => forall j, i + j < List.length data -> crossing_at data d t i j = false
  end.
Proof.
  intros Hi. unfold cell.
  destruct (nth_error data i) as [x|] eqn:Hx; [|apply nth_error_None in Hx; lia].
  destruct (np.first_true 0 _) as [j|] eqn:E.
  - apply first_true_Some in E as (_ & Hj & Hlt). rewrite Nat.sub_0_r in Hj, Hlt.
    assert (Hlen : i + j < List.length data).
    { assert (j < List.length (map (crosses d (target_of d x t)) (skipn i data)))
        by (apply nth_error_Some; congruence).
      rewrite condition_length in H. lia. }
    rewrite (condition_nth data d t x i j Hx Hlen) in Hj. injection Hj as Hj.
    repeat split; auto.
    intros j' Hj'. specialize (Hlt j' Hj').
    rewrite (condition_nth data d t x i j' Hx) in Hlt by lia. congruence.
  - intros j Hj.
    assert (Hc : nth_error (map (crosses d (target_of d x t)) (skipn i data)) j = Some false).
    { apply (first_true_None _ 0); [exact E | rewrite condition_length; lia]. }
    rewrite (condition_nth data d t x i j Hx) in Hc by lia. congruence.
Qed.

(** X1. Whatever the sign of the threshold, the entry at a start index
    [i] is the first offset, counted from 0 at [i] itself, whose sample
    satisfies the comparison; a finite entry [j] points inside the series
    ([i + j < n]); [inf] is stored exactly when no sample from [i] to the
    end satisfies it. *)
Theorem entry_is_first_crossing_from_start
        (data : ndarray) (increments : list Q) (t : Q) (d : direction) (i : nat) :
  In t increments -> i < List.length data ->
  exists w,
    entry data increments t d i = Some w /\
    match w with
    | steps j =>
        i + j < List.length data /\
        crossing_at data d t i j = true /\
        (forall j', j' < j -> crossing_at data d t i j' = false)
    | inf => forall j, i + j < List.length data -> crossing_at data d t i j = false
    end.
Proof.
  intros Ht Hi. exists (cell data d t i). split.
  - now apply entry_cell.
  - now apply cell_first_crossing.
Qed.

Lemma entry_is_first_crossing_from_start_witness :
  exists w,
    entry [3; 1; 2]%Q [(-1)%Q] (-1)%Q Rising 0 = Some w /\
    match w with
    | steps j =>
        0 + j < 3 /\
        crossing_at [3; 1; 2]%Q Rising (-1)%Q 0 j = true /\
        (forall j', j' < j -> crossing_at [3; 1; 2]%Q Rising (-1)%Q 0 j' = false)
    | inf => forall j, 0 + j < 3 -> crossing_at [3; 1; 2]%Q Rising (-1)%Q 0 j = false
    end.
Proof.
  apply (entry_is_first_crossing_from_start [3; 1; 2]%Q [(-1)%Q] (-1)%Q Rising 0).
  - simpl; auto.
  - simpl; lia.
Defined.

(** ** The falling direction *)




(** ** Transformations of the series *)







(** ** Repeated, absent and distinct thresholds *)

Lemma get_key_compat (k k' : dict.key) (d : dict.t) :
  dict.key_eqb k k' = true -> dict.get k d = dict.get k' d.
Proof.
  intros H. induction d as [|[kd vd] rest IH]; simpl; [reflexivity|].
  destruct (dict.key_eqb kd k) eqn:E.
  - now rewrite (key_eqb_trans _ _ _ E H).
  - destruct (dict.key_eqb kd k') eqn:E'; [|exact IH].
    now rewrite (key_eqb_trans _ _ _ E' (key_eqb_sym _ _ H)) in E.
Qed.

(** Assigning the value a key already has changes nothing. *)
Lemma set_get_same (k : dict.key) (v : list waiting) (d : dict.t) :
  dict.get k d = Some v -> dict.set k v d = d.
Proof.
  induction d as [|[kd vd] rest IH]; simpl; intros H; [discriminate|].
  destruct (dict.key_eqb kd k).
  - now injection H as ->.
  - now rewrite IH.
Qed.

(** Assigning to a key the dictionary lacks appends the pair. *)
Lemma set_fresh (k : dict.key) (v : list waiting) (d : dict.t) :
  dict.get k d = None -> dict.set k v d = d ++ [(k, v)].
Proof.
  induction d as [|[kd vd] rest IH]; simpl; intros H; [reflexivity|].
  destruct (dict.key_eqb kd k); [discriminate | now rewrite IH].
Qed.

Lemma get_fresh (k : dict.key) (d : dict.t) :
  (forall k', In k' (dict.keys d) -> dict.key_eqb k' k = false) -> dict.get k d = None.
Proof.
  unfold dict.keys. induction d as [|[kd vd] rest IH]; simpl; intros H; [reflexivity|].
  rewrite (H kd) by now left. apply IH. intros k' Hk'. apply H. now right.
Qed.

Lemma filled_get_compat (data : ndarray) (increments : list Q) (t t' : Q) (d : direction) (r : dict.t) :
  In t' increments -> (t' == t)%Q ->
  dict.get (t, direction_name d) (filled data increments r) = Some (column data d t).
Proof.
  intros Hin Heq.
  rewrite (get_key_compat (t, direction_name d) (t', direction_name d)).
  - rewrite filled_get by now left. f_equal. now apply column_compat.
  - unfold dict.key_eqb; simpl. rewrite String.eqb_refl, andb_true_r.
    apply Qeq_bool_iff. now symmetry.
Qed.

Lemma filled_app (data : ndarray) (l1 l2 : list Q) (r : dict.t) :
  filled data (l1 ++ l2) r = filled data l2 (filled data l1 r).
Proof. unfold filled. apply fold_left_app. Qed.

Lemma filled_cons (data : ndarray) (t : Q) (ts : list Q) (r : dict.t) :
  filled data (t :: ts) r
  = filled data ts
      (dict.set (t, "decrease"%string) (column data Falling t)
         (dict.set (t, "increase"%string) (column data Rising t) r)).
Proof. reflexivity. Qed.

(** X7. A threshold that is numerically equal to one configured earlier
    in the list has no effect: the call returns the same dictionary as
    with that occurrence removed. *)
Theorem repeated_threshold_changes_nothing
        (data : ndarray) (before after : list Q) (t t' : Q) :
  In t' before -> (t' == t)%Q ->
  calculate_waiting_times_both_directions (before ++ t :: after) data
  = calculate_waiting_times_both_directions (before ++ after) data.
Proof.
  intros Hin Heq. rewrite !calculate_run. f_equal. f_equal.
  rewrite !filled_app, filled_cons.
  rewrite (set_get_same (t, "increase"%string)).
  - rewrite (set_get_same (t, "decrease"%string)); [reflexivity|].
    exact (filled_get_compat data before t t' Falling [] Hin Heq).
  - exact (filled_get_compat data before t t' Rising [] Hin Heq).
Qed.

Lemma repeated_threshold_changes_nothing_witness :
  calculate_waiting_times_both_directions ([5%Q; 10%Q] ++ (10 # 2)%Q :: [20%Q]) [100; 102; 101; 105; 99]%Q
  = calculate_waiting_times_both_directions ([5%Q; 10%Q] ++ [20%Q]) [100; 102; 101; 105; 99]%Q.
Proof.
  apply (repeated_threshold_changes_nothing
           [100; 102; 101; 105; 99]%Q [5%Q; 10%Q] [20%Q] (10 # 2)%Q 5%Q).
  - simpl; auto.
  - reflexivity.
Defined.

Lemma filled_get_absent (data : ndarray) (increments : list Q) (t : Q) (d : direction) :
  (forall t', In t' increments -> ~ (t' == t)%Q) ->
  forall r, dict.get (t, direction_name d) (filled data increments r)
            = dict.get (t, direction_name d) r.
Proof.
  induction increments as [|t0 ts IH]; intros H r; simpl.
  - reflexivity.
  - rewrite IH by (intros t' Ht'; apply H; now right).
    rewrite get_after_increment.
    destruct (Qeq_bool t0 t) eqn:E; [|reflexivity].
    apply Qeq_bool_iff in E. exfalso. apply (H t0); [now left | exact E].
Qed.

(** X8. A threshold that equals none of the configured ones is not a key
    of the returned dictionary: looking it up, in either direction, finds
    no array. *)
Theorem unconfigured_threshold_is_not_a_key
        (data : ndarray) (increments : list Q) (t : Q) (d : direction) :
  (forall t', In t' increments -> ~ (t' == t)%Q) ->
  exists results,
    calculate_waiting_times_both_directions increments data = inr (results, data) /\
    dict.get (t, direction_name d) results = None /\
    (forall k, In k (dict.keys results) -> dict.key_eqb k (t, direction_name d) = false).
Proof.
  intros H. exists (filled data increments []). split; [apply calculate_run|]. split.
  - now rewrite filled_get_absent.
  - intros k Hk. apply filled_keys in Hk as [[]|[Hk _]].
    unfold dict.key_eqb. simpl.
    destruct (Qeq_bool (fst k) t) eqn:E; [|reflexivity].
    apply Qeq_bool_iff in E. now elim (H (fst k) Hk).
Qed.

Lemma unconfigured_threshold_is_not_a_key_witness :
  exists results,
    calculate_waiting_times_both_directions [5%Q; 10%Q] [100; 102; 101; 105; 99]%Q
    = inr (results, [100; 102; 101; 105; 99]%Q) /\
    dict.get (7%Q, direction_name Rising) results = None /\
    (forall k, In k (dict.keys results) ->
               dict.key_eqb k (7%Q, direction_name Rising) = false).
Proof.
  apply (unconfigured_threshold_is_not_a_key [100; 102; 101; 105; 99]%Q [5%Q; 10%Q] 7%Q Rising).
  intros t' [<-|[<-|[]]]; discriminate.
Defined.

Lemma filled_distinct (data : ndarray) (increments : list Q) :
  distinct increments = true ->
  forall r,
    (forall k t, In k (dict.keys r) -> In t increments -> Qeq_bool (fst k) t = false) ->
    filled data increments r
    = r ++ flat_map (fun t => [((t, "increase"%string), column data Rising t);
                               ((t, "decrease"%string), column data Falling t)])
                    increments.
Proof.
  induction increments as [|t0 ts IH]; intros Hd r Hr; simpl.
  - now rewrite app_nil_r.
  - simpl in Hd. apply andb_true_iff in Hd as [Hd0 Hd].
    rewrite (set_fresh (t0, "increase"%string)).
    2:{ apply get_fresh. intros k' Hk'. unfold dict.key_eqb; simpl.
        now rewrite (Hr k' t0 Hk') by now left. }
    rewrite (set_fresh (t0, "decrease"%string)).
    2:{ apply get_fresh. intros k' Hk'. unfold dict.keys in Hk'.
        rewrite map_app in Hk'. apply in_app_or in Hk' as [Hk'|[<-|[]]].
        - unfold dict.key_eqb; simpl. now rewrite (Hr k' t0 Hk') by now left.
        - unfold dict.key_eqb; simpl. now rewrite andb_false_r. }
    rewrite IH; [now rewrite <- !app_assoc | exact Hd |].
    intros k t Hk Ht. unfold dict.keys in Hk.
    rewrite !map_app in Hk. apply in_app_or in Hk as [Hk|Hk].
    + apply in_app_or in Hk as [Hk|[<-|[]]].
      * apply Hr; [exact Hk | now right].
      * simpl. rewrite forallb_forall in Hd0. specialize (Hd0 t Ht).
        now apply negb_true_iff in Hd0.
    + destruct Hk as [<-|[]]. simpl.
      rewrite forallb_forall in Hd0. specialize (Hd0 t Ht).
      now apply negb_true_iff in Hd0.
Qed.

(** X9. For pairwise different thresholds the returned dictionary is
    known in full: in the order of the list, each threshold contributes
    its increase column and then its decrease column, so it has twice as
    many keys as there are thresholds. *)
Theorem distinct_thresholds_give_ordered_columns (data : ndarray) (increments : list Q) :
  distinct increments = true ->
  exists results,
    calculate_waiting_times_both_directions increments data = inr (results, data) /\
    results
    = flat_map (fun t => [((t, "increase"%string), column data Rising t);
                          ((t, "decrease"%string), column data Falling t)])
               increments /\
    List.length (dict.keys results) = 2 * List.length increments.
Proof.
  intros Hd. exists (filled data increments []).
  split; [apply calculate_run|].
  rewrite (filled_distinct data increments Hd []) by (intros k t []).
  split; [reflexivity|]. simpl. unfold dict.keys. rewrite length_map.
  clear Hd. induction increments as [|t ts IH]; simpl; [reflexivity | rewrite IH; lia].
Qed.

Lemma distinct_thresholds_give_ordered_columns_witness :
  exists results,
    calculate_waiting_times_both_directions [5%Q; 10%Q; 20%Q] [100; 102; 101; 105; 99]%Q
    = inr (results, [100; 102; 101; 105; 99]%Q) /\
    results
    = flat_map (fun t => [((t, "increase"%string), column [100; 102; 101; 105; 99]%Q Rising t);
                          ((t, "decrease"%string), column [100; 102; 101; 105; 99]%Q Falling t)])
               [5%Q; 10%Q; 20%Q] /\
    List.length (dict.keys results) = 2 * List.length [5%Q; 10%Q; 20%Q].
Proof.
  apply (distinct_thresholds_give_ordered_columns [100; 102; 101; 105; 99]%Q [5%Q; 10%Q; 20%Q]).
  reflexivity.
Defined.

(** * Properties of the script around the function *)

(** ** The subset of the prices *)

Lemma first_true_firstn (c : list bool) :
  forall k m,
    np.first_true k (firstn m c)
    = match np.first_true k c with
      | Some j => if j - k <? m then Some j else None
      | None => None
      end.
Proof.
  induction c as [|b c IH]; intros k m.
  - now rewrite firstn_nil.
  - destruct m as [|m].
    + simpl. now destruct (if b then Some k else np.first_true (S k) c).
    + simpl firstn. simpl np.first_true. destruct b.
      * now rewrite Nat.sub_diag.
      * rewrite IH. destruct (np.first_true (S k) c) as [j|] eqn:E; [|reflexivity].
        apply first_true_Some in E as (Hle & _).
        replace (j - k) with (S (j - S k)) by lia. reflexivity.
Qed.

Lemma cell_firstn (N : nat) (prices : ndarray) (d : direction) (t : Q) (i : nat) :
  i < N ->
  cell (firstn N prices) d t i
  = match cell prices d t i with
    | steps j => if i + j <? N then steps j else inf
    | inf => inf
    end.
Proof.
  intros Hi. unfold cell. rewrite nth_error_firstn.
  destruct (Nat.ltb_spec i N) as [_|]; [|lia].
  destruct (nth_error prices i) as [x|]; [|reflexivity].
  rewrite skipn_firstn_comm, <- firstn_map, first_true_firstn.
  destruct (np.first_true 0 _) as [j|]; [|reflexivity].
  rewrite Nat.sub_0_r.
  destruct (Nat.ltb_spec j (N - i)), (Nat.ltb_spec (i + j) N); (reflexivity || lia).
Qed.

Lemma entry_firstn (N : nat) (prices : ndarray) (increments : list Q)
      (t : Q) (d : direction) (i : nat) :
  In t increments -> i < List.length (firstn N prices) ->
  entry (firstn N prices) increments t d i
  = match entry prices increments t d i with
    | Some (steps j) => if i + j <? N then Some (steps j) else Some inf
    | other => other
    end.
Proof.
  intros Hin Hi. pose proof Hi as Hi'. rewrite length_firstn in Hi'.
  rewrite (entry_cell (firstn N prices)) by assumption.
  rewrite (entry_cell prices) by (assumption || lia).
  rewrite cell_firstn by lia.
  destruct (cell prices d t i) as [j|]; [|reflexivity].
  now destruct (i + j <? N).
Qed.

(** X10. Cutting the prices to their first 125000 samples changes an
    entry in one way only: a crossing that the full series reaches at or
    beyond sample 125000 becomes [inf]; every crossing inside the subset
    keeps its offset, and an [inf] stays [inf]. *)
Theorem subset_only_loses_late_crossings
        (prices : ndarray) (increments : list Q) (t : Q) (d : direction) (i : nat) :
  In t increments -> i < List.length (script.data prices) ->
  entry (script.data prices) increments t d i
  = match entry prices increments t d i with
    | Some (steps j) => if i + j <? 125000 then Some (steps j) else Some inf
    | other => other
    end.
Proof. intros Hin Hi. now apply entry_firstn. Qed.

Lemma subset_only_loses_late_crossings_witness :
  entry (script.data [100; 102; 101; 105; 99]%Q) [5%Q] 5%Q Rising 0
  = match entry [100; 102; 101; 105; 99]%Q [5%Q] 5%Q Rising 0 with
    | Some (steps j) => if 0 + j <? 125000 then Some (steps j) else Some inf
    | other => other
    end.
Proof.
  apply (subset_only_loses_late_crossings [100; 102; 101; 105; 99]%Q [5%Q] 5%Q Rising 0).
  - simpl; auto.
  - vm_compute. lia.
Defined.

(** X11. Whatever the prices, the dictionary the script builds has six
    keys, in this order: increase and decrease for 5, then for 10, then
    for 20; and every array in it has as many entries as the subset,
    the smaller of 125000 and the number of prices. *)
Theorem script_dictionary_shape (prices : ndarray) :
  exists results,
    script.waiting_times_dict prices = inr results /\
    dict.keys results
    = [(5%Q, "increase"%string); (5%Q, "decrease"%string);
       (10%Q, "increase"%string); (10%Q, "decrease"%string);
       (20%Q, "increase"%string); (20%Q, "decrease"%string)] /\
    Forall (fun kv => List.length (snd kv) = Nat.min 125000 (List.length prices)) results.
Proof.
  unfold script.waiting_times_dict. rewrite calculate_run.
  exists (filled (script.data prices) script.increments []).
  split; [reflexivity|]. split.
  - rewrite filled_distinct; [reflexivity | reflexivity | intros k t []].
  - rewrite <- (length_firstn 125000 prices).
    apply (filled_lengths (script.data prices)). constructor.
Qed.

(** ** The loop over the increments of the dictionary *)

(** X12. In the loop over the increments taken from the keys, the
    default [np.array([])] of [.get] is never used: for each such increment
    both the increase and the decrease array are in the dictionary, each
    with [n] entries, and they are the arrays that get cleaned. *)
Theorem both_directions_present_for_every_key (data : ndarray) (increments : list Q) :
  exists results,
    calculate_waiting_times_both_directions increments data = inr (results, data) /\
    forall increment, In increment (script.key_increments results) ->
      exists waiting_times_increase waiting_times_decrease,
        dict.get (increment, "increase"%string) results = Some waiting_times_increase /\
        dict.get (increment, "decrease"%string) results = Some waiting_times_decrease /\
        List.length waiting_times_increase = List.length data /\
        List.length waiting_times_decrease = List.length data /\
        script.cleaned_waiting_times results increment
        = (script.cleaned waiting_times_increase, script.cleaned waiting_times_decrease).
Proof.
  exists (filled data increments []). split; [apply calculate_run|].
  intros increment Hin. unfold script.key_increments in Hin.
  apply in_map_iff in Hin as (k & <- & Hk).
  apply filled_keys in Hk as [[]|[Hk _]].
  exists (column data Rising (fst k)), (column data Falling (fst k)).
  pose proof (filled_get data increments (fst k) Rising [] (or_introl Hk)) as Hr.
  pose proof (filled_get data increments (fst k) Falling [] (or_introl Hk)) as Hf.
  simpl in Hr, Hf.
  unfold script.cleaned_waiting_times, script.get_or_empty. rewrite Hr, Hf.
  repeat split; auto using length_column.
Qed.

Lemma cleaned_column_inside (data : ndarray) (d : direction) (t : Q) (w : waiting) :
  In w (script.cleaned (column data d t)) ->
  exists j, w = steps j /\ j < List.length data.
Proof.
  intros Hw. unfold script.cleaned in Hw. apply filter_In in Hw as [Hw Hfin].
  unfold column in Hw. apply in_map_iff in Hw as (i & <- & Hi).
  apply in_seq in Hi.
  pose proof (cell_first_crossing data d t i ltac:(lia)) as H.
  destruct (cell data d t i) as [j|]; [|discriminate].
  exists j. split; [reflexivity | lia].
Qed.

(** X13. For every configured threshold, every value that survives the
    [np.isfinite] cleaning, in either direction, is an offset below [n]:
    no [inf] is left and no offset points past the end of the series. *)
Theorem cleaned_values_are_offsets_below_n
        (data : ndarray) (increments : list Q) (t : Q) (w : waiting) :
  In t increments ->
  exists results,
    calculate_waiting_times_both_directions increments data = inr (results, data) /\
    (In w (fst (script.cleaned_waiting_times results t)) \/
     In w (snd (script.cleaned_waiting_times results t)) ->
     exists j, w = steps j /\ j < List.length data).
Proof.
  intros Hin. exists (filled data increments []). split; [apply calculate_run|].
  pose proof (filled_get data increments t Rising [] (or_introl Hin)) as Hr.
  pose proof (filled_get data increments t Falling [] (or_introl Hin)) as Hf.
  simpl in Hr, Hf.
  unfold script.cleaned_waiting_times, script.get_or_empty. rewrite Hr, Hf. simpl.
  intros [Hw|Hw]; now apply cleaned_column_inside in Hw.
Qed.

Lemma cleaned_values_are_offsets_below_n_witness :
  exists results,
    calculate_waiting_times_both_directions [5%Q] [100; 102; 101; 105; 99]%Q
    = inr (results, [100; 102; 101; 105; 99]%Q) /\
    (In (steps 3) (fst (script.cleaned_waiting_times results 5%Q)) \/
     In (steps 3) (snd (script.cleaned_waiting_times results 5%Q)) ->
     exists j, steps 3 = steps j /\ j < List.length [100; 102; 101; 105; 99]%Q).
Proof.
  apply (cleaned_values_are_offsets_below_n [100; 102; 101; 105; 99]%Q [5%Q] 5%Q (steps 3)).
  simpl; auto.
Defined.

(** ** Bin centres *)





(** * The function in binary64 *)

(** ** Comparing binary64 numbers *)

Lemma SFeqb_cases (a b : spec_float) :
  SFeqb a b = true ->
  a = b \/ exists s s', a = S754_zero s /\ b = S754_zero s'.
Proof.
  unfold SFeqb.
  destruct a as [sa|sa| |sa ma ea], b as [sb|sb| |sb mb eb]; simpl;
    try discriminate; try (destruct sa; discriminate); try (destruct sb; discriminate).
  - intros _. right. now exists sa, sb.
  - destruct sa, sb; try discriminate; now left.
  - destruct sa, sb; try discriminate;
      destruct (Z.compare ea eb) eqn:E; try discriminate;
      apply Z.compare_eq in E; subst eb;
      destruct (Pos.compare_cont Eq ma mb) eqn:E'; try discriminate;
      apply Pos.compare_eq in E'; subst mb; now left.
Qed.

Lemma SFeqb_refl (a : spec_float) : a <> S754_nan -> SFeqb a a = true.
Proof.
  unfold SFeqb. destruct a as [s|s| |s m e]; simpl; intros H.
  - reflexivity.
  - now destruct s.
  - now elim H.
  - rewrite Z.compare_refl.
    change (Pos.compare_cont Eq m m) with (Pos.compare m m).
    rewrite Pos.compare_refl. now destruct s.
Qed.

Lemma feqb_cases (a b : float) :
  PrimFloat.eqb a b = true ->
  a = b \/ exists s s', Prim2SF a = S754_zero s /\ Prim2SF b = S754_zero s'.
Proof.
  rewrite FloatAxioms.eqb_spec. intros H.
  apply SFeqb_cases in H as [H|H]; [left; now apply Prim2SF_inj | now right].
Qed.

Lemma feqb_sym (a b : float) :
  PrimFloat.eqb a b = true -> PrimFloat.eqb b a = true.
Proof.
  intros H. destruct (feqb_cases a b H) as [->|(s & s' & Ha & Hb)]; [exact H|].
  now rewrite FloatAxioms.eqb_spec, Ha, Hb.
Qed.

Lemma feqb_trans (a b c : float) :
  PrimFloat.eqb a b = true -> PrimFloat.eqb b c = true -> PrimFloat.eqb a c = true.
Proof.
  intros H1 H2.
  destruct (feqb_cases a b H1) as [->|(s & s' & Ha & Hb)]; [exact H2|].
  destruct (feqb_cases b c H2) as [<-|(s1 & s1' & Hb' & Hc)]; [exact H1|].
  now rewrite FloatAxioms.eqb_spec, Ha, Hc.
Qed.

(** Equal numbers are below each other: the comparison is inclusive. *)
Lemma feqb_leb (a b : float) :
  PrimFloat.eqb a b = true -> PrimFloat.leb a b = true /\ PrimFloat.leb b a = true.
Proof.
  assert (Hle : forall u v, PrimFloat.eqb u v = true -> PrimFloat.leb u v = true).
  { intros u v. rewrite FloatAxioms.eqb_spec, FloatAxioms.leb_spec.
    unfold SFeqb, SFleb. now destruct (SFcompare (Prim2SF u) (Prim2SF v)) as [[]|]. }
  intros H. split; apply Hle; [exact H | now apply feqb_sym].
Qed.

(** Only when [t] is a number (not NaN) can anything equal [x + t] or
    [x - t]. *)
Lemma target_not_nan (d : direction) (x t y : float) :
  PrimFloat.eqb y (f64.target_of d x t) = true -> PrimFloat.eqb t t = true.
Proof.
  intros H. rewrite FloatAxioms.eqb_spec in *.
  destruct (Prim2SF t) as [s|s| |s m e] eqn:Et;
    try (apply SFeqb_refl; discriminate).
  exfalso. destruct d; simpl in H.
  - rewrite FloatAxioms.add_spec, Et in H. unfold SF64add, SFadd, SFeqb in H.
    destruct (Prim2SF x), (Prim2SF y); discriminate.
  - rewrite FloatAxioms.sub_spec, Et in H. unfold SF64sub, SFsub, SFeqb in H.
    destruct (Prim2SF x), (Prim2SF y); discriminate.
Qed.

(** Numerically equal increments give the same comparisons. *)
Lemma f64_crosses_target_compat (d : direction) (x t t' y : float) :
  PrimFloat.eqb t t' = true ->
  f64.crosses d (f64.target_of d x t) y = f64.crosses d (f64.target_of d x t') y.
Proof.
  intros H. destruct (feqb_cases t t' H) as [->|(s & s' & Ht & Ht')]; [reflexivity|].
  destruct d; simpl; rewrite !FloatAxioms.leb_spec.
  - rewrite !FloatAxioms.add_spec, Ht, Ht'. unfold SF64add, SFadd.
    destruct (Prim2SF x) as [sx|sx| |sx mx ex]; try reflexivity.
    destruct sx, s, s', (Prim2SF y); reflexivity.
  - rewrite !FloatAxioms.sub_spec, Ht, Ht'. unfold SF64sub, SFsub.
    destruct (Prim2SF x) as [sx|sx| |sx mx ex]; try reflexivity.
    destruct sx, s, s', (Prim2SF y); reflexivity.
Qed.

(** ** The loops *)

Lemma f64_guarded_argmax (c : list bool) (data : f64.ndarray) :
  (if np.any c
   then f64.bind (f64.lift (np.argmax c)) (fun j => f64.ret (steps j))
   else f64.ret inf) data
  = inr (match np.first_true 0 c with Some j => steps j | None => inf end, data).
Proof.
  destruct (np.any c) eqn:E.
  - destruct (any_true_first_true c 0 E) as [j Hj].
    destruct c as [|b c]; [discriminate|].
    unfold np.argmax. rewrite Hj. reflexivity.
  - rewrite (any_false_first_true c 0 E). reflexivity.
Qed.

Lemma f64_increase_body_run (data : f64.ndarray) (increment : float) (i : nat) (acc : list waiting) :
  i < List.length data ->
  f64.increase_body increment i acc data
  = inr (acc ++ [f64.cell data Rising increment i], data).
Proof.
  intros Hi. unfold f64.increase_body, f64.cell.
  unfold f64.bind at 1. unfold f64.data_item.
  destruct (nth_error data i) as [x|] eqn:E; [|apply nth_error_None in E; lia].
  unfold f64.bind at 1. unfold f64.data_from.
  unfold f64.bind at 1. rewrite f64_guarded_argmax. reflexivity.
Qed.

Lemma f64_decrease_body_run (data : f64.ndarray) (increment : float) (i : nat) (acc : list waiting) :
  i < List.length data ->
  f64.decrease_body increment i acc data
  = inr (acc ++ [f64.cell data Falling increment i], data).
Proof.
  intros Hi. unfold f64.decrease_body, f64.cell.
  unfold f64.bind at 1. unfold f64.data_item.
  destruct (nth_error data i) as [x|] eqn:E; [|apply nth_error_None in E; lia].
  unfold f64.bind at 1. unfold f64.data_from.
  unfold f64.bind at 1. rewrite f64_guarded_argmax. reflexivity.
Qed.

Lemma f64_for_each_append {A B : Type} (f : A -> B) (body : A -> list B -> f64.Py (list B))
      (data : f64.ndarray) (xs : list A) :
  (forall x acc, In x xs -> body x acc data = inr (acc ++ [f x], data)) ->
  forall acc, f64.for_each xs body acc data = inr (acc ++ map f xs, data).
Proof.
  induction xs as [|x xs IH]; intros Hbody acc; simpl.
  - unfold f64.ret. now rewrite app_nil_r.
  - unfold f64.bind. rewrite Hbody by now left.
    rewrite IH by (intros; apply Hbody; now right).
    now rewrite <- app_assoc.
Qed.

Lemma f64_increment_body_run (data : f64.ndarray) (increment : float) (results : f64.dict) :
  f64.increment_body (List.length data) increment results data
  = inr (f64.set (increment, "decrease"%string) (f64.column data Falling increment)
           (f64.set (increment, "increase"%string) (f64.column data Rising increment) results),
         data).
Proof.
  unfold f64.increment_body, f64.bind.
  rewrite (f64_for_each_append (f64.cell data Rising increment)).
  2:{ intros i acc Hi. apply f64_increase_body_run. apply in_seq in Hi. lia. }
  rewrite (f64_for_each_append (f64.cell data Falling increment)).
  2:{ intros i acc Hi. apply f64_decrease_body_run. apply in_seq in Hi. lia. }
  reflexivity.
Qed.

Lemma f64_increments_loop_run (data : f64.ndarray) (increments : list float) (results : f64.dict) :
  f64.for_each increments (f64.increment_body (List.length data)) results data
  = inr (f64.filled data increments results, data).
Proof.
  revert results; induction increments as [|t ts IH]; intros results; simpl.
  - reflexivity.
  - unfold f64.bind. rewrite f64_increment_body_run. apply IH.
Qed.

(** In binary64 too the call returns normally, with the dictionary
    [f64.filled] computes and with the array it was given. *)
Lemma f64_calculate_run (data : f64.ndarray) (increments : list float) :
  f64.calculate_waiting_times_both_directions increments data
  = inr (f64.filled data increments [], data).
Proof.
  unfold f64.calculate_waiting_times_both_directions, f64.bind, f64.len_data.
  rewrite f64_increments_loop_run. reflexivity.
Qed.

(** ** The dictionary *)

Lemma f64_key_eqb_sym (a b : f64.key) :
  f64.key_eqb a b = true -> f64.key_eqb b a = true.
Proof.
  unfold f64.key_eqb. intros H. apply andb_true_iff in H as [Hq Hs].
  apply andb_true_iff; split.
  - now apply feqb_sym.
  - now rewrite String.eqb_sym.
Qed.

Lemma f64_key_eqb_trans (a b c : f64.key) :
  f64.key_eqb a b = true -> f64.key_eqb b c = true -> f64.key_eqb a c = true.
Proof.
  unfold f64.key_eqb. intros H1 H2.
  apply andb_true_iff in H1 as [Hq1 Hs1]. apply andb_true_iff in H2 as [Hq2 Hs2].
  apply andb_true_iff; split.
  - now apply feqb_trans with (fst b).
  - apply String.eqb_eq in Hs1, Hs2. apply String.eqb_eq. congruence.
Qed.

Lemma f64_get_set (k k' : f64.key) (v : list waiting) (d : f64.dict) :
  f64.get k (f64.set k' v d) = if f64.key_eqb k' k then Some v else f64.get k d.
Proof.
  induction d as [|[kd vd] rest IH]; simpl.
  - reflexivity.
  - destruct (f64.key_eqb kd k') eqn:E1; simpl.
    + destruct (f64.key_eqb kd k) eqn:E2.
      * now rewrite (f64_key_eqb_trans _ _ _ (f64_key_eqb_sym _ _ E1) E2).
      * destruct (f64.key_eqb k' k) eqn:E3; [|reflexivity].
        now rewrite (f64_key_eqb_trans _ _ _ E1 E3) in E2.
    + destruct (f64.key_eqb kd k) eqn:E2; [|exact IH].
      destruct (f64.key_eqb k' k) eqn:E3; [|reflexivity].
      now rewrite (f64_key_eqb_trans _ _ _ E2 (f64_key_eqb_sym _ _ E3)) in E1.
Qed.

Lemma f64_column_compat (data : f64.ndarray) (d : direction) (t t' : float) :
  PrimFloat.eqb t t' = true -> f64.column data d t = f64.column data d t'.
Proof.
  intros H. unfold f64.column. apply map_ext. intros i. unfold f64.cell.
  destruct (nth_error data i) as [x|]; [|reflexivity].
  replace (map (f64.crosses d (f64.target_of d x t)) (skipn i data))
    with (map (f64.crosses d (f64.target_of d x t')) (skipn i data)); [reflexivity|].
  apply map_ext. intros y. symmetry. now apply f64_crosses_target_compat.
Qed.

Lemma f64_get_after_increment (data : f64.ndarray) (t0 t : float) (d : direction) (r : f64.dict) :
  f64.get (t, direction_name d)
    (f64.set (t0, "decrease"%string) (f64.column data Falling t0)
       (f64.set (t0, "increase"%string) (f64.column data Rising t0) r))
  = if PrimFloat.eqb t0 t then Some (f64.column data d t)
    else f64.get (t, direction_name d) r.
Proof.
  rewrite !f64_get_set. unfold f64.key_eqb. simpl fst; simpl snd.
  destruct (PrimFloat.eqb t0 t) eqn:E.
  - destruct d; simpl; now rewrite (f64_column_compat _ _ _ _ E).
  - destruct d; reflexivity.
Qed.

Lemma f64_filled_get (data : f64.ndarray) (increments : list float) (t : float) (d : direction) :
  PrimFloat.eqb t t = true ->
  forall r,
    In t increments \/ f64.get (t, direction_name d) r = Some (f64.column data d t) ->
    f64.get (t, direction_name d) (f64.filled data increments r) = Some (f64.column data d t).
Proof.
  intros Ht. induction increments as [|t0 ts IH]; intros r H; simpl.
  - destruct H as [[]|H]. exact H.
  - apply IH. destruct H as [[->|H]|H]; auto; right; rewrite f64_get_after_increment.
    + now rewrite Ht.
    + now destruct (PrimFloat.eqb t0 t).
Qed.

Lemma f64_nth_error_column (data : f64.ndarray) (d : direction) (t : float) (i : nat) :
  i < List.length data -> nth_error (f64.column data d t) i = Some (f64.cell data d t i).
Proof.
  intros Hi. unfold f64.column. rewrite nth_error_map, nth_error_seq.
  destruct (Nat.ltb_spec i (List.length data)); [reflexivity | lia].
Qed.

(** The entry read back from the returned dictionary is the value the loop
    pass at [i] appended, for every increment that is a number. *)
Lemma f64_entry_cell (data : f64.ndarray) (increments : list float) (t : float)
      (d : direction) (i : nat) :
  In t increments -> PrimFloat.eqb t t = true -> i < List.length data ->
  f64.entry data increments t d i = Some (f64.cell data d t i).
Proof.
  intros Hin Ht Hi. unfold f64.entry. rewrite f64_calculate_run.
  rewrite f64_filled_get by (assumption || now left). now apply f64_nth_error_column.
Qed.

(** ** First passage *)

Lemma f64_condition_nth (data : f64.ndarray) (d : direction) (t x : float) (i m : nat) :
  nth_error data i = Some x -> i + m < List.length data ->
  nth_error (map (f64.crosses d (f64.target_of d x t)) (skipn i data)) m
  = Some (f64.crossing_at data d t i m).
Proof.
  intros Hx Hm. rewrite nth_error_map, nth_error_skipn.
  unfold f64.crossing_at. rewrite Hx.
  destruct (nth_error data (i + m)) as [y|] eqn:E; [reflexivity|].
  apply nth_error_None in E. lia.
Qed.

Lemma f64_condition_length (data : f64.ndarray) (d : direction) (target : float) (i : nat) :
  List.length (map (f64.crosses d target) (skipn i data)) = List.length data - i.
Proof. now rewrite length_map, length_skipn. Qed.

Lemma f64_crossing_at_start (data : f64.ndarray) (d : direction) (t x : float) (i : nat) :
  nth_error data i = Some x ->
  f64.crossing_at data d t i 0 = f64.crosses d (f64.target_of d x t) x.
Proof. intros Hx. unfold f64.crossing_at. now rewrite Nat.add_0_r, Hx. Qed.

(** The cell is the first offset, counted from the start index itself,
    that crosses. *)
Lemma f64_cell_first_crossing (data : f64.ndarray) (d : direction) (t : float) (i : nat) :
  i < List.length data ->
  match f64.cell data d t i with
  | steps j =>
      i + j < List.length data /\
      f64.crossing_at data d t i j = true /\
      (forall j', j' < j -> f64.crossing_at data d t i j' = false)
  | inf => forall j, i + j < List.length data -> f64.crossing_at data d t i j = false
  end.
Proof.
  intros Hi. unfold f64.cell.
  destruct (nth_error data i) as [x|] eqn:Hx; [|apply nth_error_None in Hx; lia].
  destruct (np.first_true 0 _) as [j|] eqn:E.
  - apply first_true_Some in E as (_ & Hj & Hlt). rewrite Nat.sub_0_r in Hj, Hlt.
    assert (Hlen : i + j < List.length data).
    { assert (j < List.length (map (f64.crosses d (f64.target_of d x t)) (skipn i data)))
        by (apply nth_error_Some; congruence).
      rewrite f64_condition_length in H. lia. }
    rewrite (f64_condition_nth data d t x i j Hx Hlen) in Hj. injection Hj as Hj.
    repeat split; auto.
    intros j' Hj'. specialize (Hlt j' Hj').
    rewrite (f64_condition_nth data d t x i j' Hx) in Hlt by lia. congruence.
  - intros j Hj.
    assert (Hc : nth_error (map (f64.crosses d (f64.target_of d x t)) (skipn i data)) j
                 = Some false).
    { apply (first_true_None _ 0); [exact E | rewrite f64_condition_length; lia]. }
    rewrite (f64_condition_nth data d t x i j Hx) in Hc by lia. congruence.
Qed.

(** When the start sample itself meets the target, the cell is 0. *)
Lemma f64_cell_start_crosses (data : f64.ndarray) (d : direction) (t x : float) (i : nat) :
  nth_error data i = Some x ->
  f64.crosses d (f64.target_of d x t) x = true ->
  f64.cell data d t i = steps 0.
Proof.
  intros Hx Hc.
  assert (Hi : i < List.length data) by (apply nth_error_Some; congruence).
  pose proof (f64_cell_first_crossing data d t i Hi) as H.
  pose proof (f64_crossing_at_start data d t x i Hx) as H0. rewrite Hc in H0.
  destruct (f64.cell data d t i) as [j|].
  - destruct H as (_ & _ & Hlt). destruct j as [|j]; [reflexivity|].
    rewrite (Hlt 0) in H0 by lia. discriminate.
  - rewrite (H 0) in H0 by lia. discriminate.
Qed.

(** When it does not, the cell is the first-passage result. *)
Lemma f64_cell_first_passage (data : f64.ndarray) (d : direction) (t x : float) (i : nat) :
  nth_error data i = Some x ->
  f64.crosses d (f64.target_of d x t) x = false ->
  f64.first_passage data d t i (f64.cell data d t i).
Proof.
  intros Hx Hc.
  assert (Hi : i < List.length data) by (apply nth_error_Some; congruence).
  pose proof (f64_cell_first_crossing data d t i Hi) as H.
  pose proof (f64_crossing_at_start data d t x i Hx) as H0. rewrite Hc in H0.
  destruct (f64.cell data d t i) as [j|]; simpl.
  - destruct H as (Hlen & Hj & Hlt). repeat split; auto.
    destruct j as [|j]; [congruence | lia].
  - intros j _ Hj. apply H. lia.
Qed.

Lemma f64_naive_first_passage (data : f64.ndarray) (d : direction) (t : float) (i : nat) :
  f64.first_passage data d t i (f64.naive_forward_scan data d t i).
Proof.
  unfold f64.naive_forward_scan.
  destruct (find _ _) as [j|] eqn:E; simpl.
  - pose proof (find_seq_least _ _ _ _ E) as Hleast.
    apply find_some in E as [Hin Hc]. apply in_seq in Hin.
    repeat split; auto; lia.
  - intros j H1 H2. apply (find_none _ _ E). apply in_seq. lia.
Qed.

Lemma f64_first_passage_unique (data : f64.ndarray) (d : direction) (t : float)
      (i : nat) (w w' : waiting) :
  f64.first_passage data d t i w -> f64.first_passage data d t i w' -> w = w'.
Proof.
  destruct w as [j|], w' as [j'|]; simpl; intros H H'.
  - destruct H as (H1 & H2 & H3 & H4), H' as (H1' & H2' & H3' & H4').
    destruct (Nat.lt_trichotomy j j') as [Hlt|[->|Hlt]]; [|reflexivity|].
    + rewrite (H4' j H1 Hlt) in H3. discriminate.
    + rewrite (H4 j' H1' Hlt) in H3'. discriminate.
  - destruct H as (H1 & H2 & H3 & _). rewrite H' in H3 by lia. discriminate.
  - destruct H' as (H1 & H2 & H3 & _). rewrite H in H3 by lia. discriminate.
  - reflexivity.
Qed.

(** The cell in full: 0 when the start sample meets the target, the naive
    forward scan otherwise. *)
Lemma f64_cell_naive (data : f64.ndarray) (d : direction) (t x : float) (i : nat) :
  nth_error data i = Some x ->
  f64.cell data d t i
  = if f64.crosses d (f64.target_of d x t) x then steps 0
    else f64.naive_forward_scan data d t i.
Proof.
  intros Hx. destruct (f64.crosses d (f64.target_of d x t) x) eqn:Hc.
  - now apply f64_cell_start_crosses with x.
  - apply (f64_first_passage_unique data d t i).
    + now apply f64_cell_first_passage with x.
    + apply f64_naive_first_passage.
Qed.

(** ** The claims that depend on rounding *)

(** C1, as stated, fails: with prices near 1e16 a threshold of 1 is
    absorbed, [1e16 + 1] is [1e16] in binary64, so the start sample itself
    meets the target and the entry is 0, while the naive forward scan finds
    the crossing at offset 1. *)
Lemma absorbed_threshold_differs_from_naive_scan :
  PrimFloat.ltb 0 1 = true /\
  f64.entry [1e16; 10000000000000002]%float [1%float] 1%float Rising 0 = Some (steps 0) /\
  f64.naive_forward_scan [1e16; 10000000000000002]%float Rising 1%float 0 = steps 1.
Proof. repeat split; reflexivity. Qed.

(** C1, amended. For every series, every configured threshold that is a
    number, either direction and every start index [i]: when the start
    sample does not itself meet the target the code computes
    ([data[i] + t], resp. [data[i] - t], rounded), the entry is the result
    of the naive forward scan, the least offset [j >= 1] that crosses, and
    [inf] exactly when no offset up to [n-1-i] crosses; when the start
    sample meets the target, the entry is 0. *)
Theorem waiting_time_is_naive_scan_unless_start_crosses
        (data : f64.ndarray) (increments : list float) (t : float)
        (d : direction) (i : nat) (x : float) :
  In t increments -> PrimFloat.eqb t t = true -> nth_error data i = Some x ->
  f64.entry data increments t d i
  = Some (if f64.crosses d (f64.target_of d x t) x then steps 0
          else f64.naive_forward_scan data d t i) /\
  f64.first_passage data d t i (f64.naive_forward_scan data d t i) /\
  (f64.naive_forward_scan data d t i = inf <->
   forall j, 1 <= j -> j <= List.length data - 1 - i ->
             f64.crossing_at data d t i j = false).
Proof.
  intros Hin Ht Hx.
  assert (Hi : i < List.length data) by (apply nth_error_Some; congruence).
  split; [|split].
  - rewrite f64_entry_cell by assumption. f_equal. now apply f64_cell_naive.
  - apply f64_naive_first_passage.
  - pose proof (f64_naive_first_passage data d t i) as Hfp. split.
    + intros E. now rewrite E in Hfp.
    + intros Hnone. destruct (f64.naive_forward_scan data d t i) as [j|]; [|reflexivity].
      destruct Hfp as (H1 & H2 & H3 & _). rewrite Hnone in H3 by lia. discriminate.
Qed.

Lemma waiting_time_is_naive_scan_unless_start_crosses_witness :
  f64.entry [100; 102; 101; 105; 99]%float [5%float] 5%float Rising 0
  = Some (if f64.crosses Rising (f64.target_of Rising 100%float 5%float) 100%float
          then steps 0
          else f64.naive_forward_scan [100; 102; 101; 105; 99]%float Rising 5%float 0) /\
  f64.naive_forward_scan [100; 102; 101; 105; 99]%float Rising 5%float 0 = steps 3.
Proof.
  split.
  - apply (waiting_time_is_naive_scan_unless_start_crosses
             [100; 102; 101; 105; 99]%float [5%float] 5%float Rising 0 100%float).
    + simpl; auto.
    + reflexivity.
    + reflexivity.
  - reflexivity.
Defined.

(** C4, as stated, fails: on the one-sample series [1e16] with threshold
    1 the entry at the last index, which is index 0, is 0 in both
    directions, not [inf]. *)
Lemma last_index_waits_zero_when_absorbed :
  PrimFloat.ltb 0 1 = true /\
  f64.entry [1e16%float] [1%float] 1%float Rising (List.length [1e16%float] - 1)
  = Some (steps 0) /\
  f64.entry [1e16%float] [1%float] 1%float Falling (List.length [1e16%float] - 1)
  = Some (steps 0).
Proof. repeat split; reflexivity. Qed.

(** C4, amended. For every series, every configured threshold that is a
    number and both directions, the entry at the last start index [n-1] is
    [inf], unless the last sample itself meets the target the code
    computes (the threshold is absorbed by rounding, or is not positive),
    in which case it is 0. *)
Theorem last_index_unreachable_unless_start_crosses
        (data : f64.ndarray) (increments : list float) (t : float)
        (d : direction) (x : float) :
  In t increments -> PrimFloat.eqb t t = true ->
  nth_error data (List.length data - 1) = Some x ->
  f64.entry data increments t d (List.length data - 1)
  = Some (if f64.crosses d (f64.target_of d x t) x then steps 0 else inf).
Proof.
  intros Hin Ht Hx.
  assert (Hi : List.length data - 1 < List.length data) by (apply nth_error_Some; congruence).
  rewrite f64_entry_cell by assumption. f_equal.
  destruct (f64.crosses d (f64.target_of d x t) x) eqn:Hc.
  - now apply f64_cell_start_crosses with x.
  - pose proof (f64_cell_first_passage data d t x _ Hx Hc) as Hfp.
    destruct (f64.cell data d t (List.length data - 1)) as [j|]; [|reflexivity].
    simpl in Hfp. lia.
Qed.

Lemma last_index_unreachable_unless_start_crosses_witness :
  f64.entry [1; 2; 3; 4; 5]%float [1%float] 1%float Rising
            (List.length [1; 2; 3; 4; 5]%float - 1)
  = Some (if f64.crosses Rising (f64.target_of Rising 5%float 1%float) 5%float
          then steps 0 else inf) /\
  f64.crosses Rising (f64.target_of Rising 5%float 1%float) 5%float = false.
Proof.
  split.
  - apply (last_index_unreachable_unless_start_crosses
             [1; 2; 3; 4; 5]%float [1%float] 1%float Rising 5%float).
    + simpl; auto.
    + reflexivity.
    + reflexivity.
  - reflexivity.
Defined.

(** C5, as stated, fails: in [1e16, 0, 1e16] with threshold 1 the sample
    at offset 2 equals the target [1e16 + 1] and the sample at offset 1
    does not reach it, yet the entry at index 0 is 0, not 2, because the
    start sample already equals the target. *)
Lemma exact_target_at_two_but_entry_zero :
  PrimFloat.ltb 0 1 = true /\
  PrimFloat.eqb 1e16 (PrimFloat.add 1e16 1) = true /\
  f64.crossing_at [1e16; 0; 1e16]%float Rising 1%float 0 1 = false /\
  f64.crossing_at [1e16; 0; 1e16]%float Rising 1%float 0 2 = true /\
  f64.entry [1e16; 0; 1e16]%float [1%float] 1%float Rising 0 = Some (steps 0).
Proof. repeat split; reflexivity. Qed.

(** C5, amended. The comparison is inclusive: when the sample [j] steps
    after [i] is equal to the target the code computes ([data[i] + t]
    when rising, [data[i] - t] when falling, rounded) and no offset before
    [j], the start index itself included, crosses, the entry at [i] is
    [j]. With [j = 2] this is offset 2, neither [inf] nor 3. *)
Theorem exact_target_counts_as_crossing_when_first
        (data : f64.ndarray) (increments : list float) (t : float) (d : direction)
        (i j : nat) (x y : float) :
  In t increments ->
  nth_error data i = Some x -> nth_error data (i + j) = Some y ->
  PrimFloat.eqb y (f64.target_of d x t) = true ->
  (forall j', j' < j -> f64.crossing_at data d t i j' = false) ->
  f64.entry data increments t d i = Some (steps j).
Proof.
  intros Hin Hx Hy Heq Hbefore.
  assert (Ht : PrimFloat.eqb t t = true) by (now apply target_not_nan with d x y).
  assert (Hi : i < List.length data) by (apply nth_error_Some; congruence).
  rewrite f64_entry_cell by assumption. f_equal.
  assert (Hj : f64.crossing_at data d t i j = true).
  { unfold f64.crossing_at. rewrite Hx, Hy.
    apply feqb_leb in Heq as [H1 H2]. destruct d; simpl in *; assumption. }
  pose proof (f64_cell_first_crossing data d t i Hi) as H.
  destruct (f64.cell data d t i) as [k|].
  - destruct H as (_ & Hk & Hlt). f_equal.
    destruct (Nat.lt_trichotomy k j) as [Hlt'|[->|Hlt']]; [|reflexivity|].
    + rewrite (Hbefore k Hlt') in Hk. discriminate.
    + rewrite (Hlt j Hlt') in Hj. discriminate.
  - assert (i + j < List.length data) by (apply nth_error_Some; congruence).
    rewrite H in Hj by assumption. discriminate.
Qed.

Lemma exact_target_counts_as_crossing_when_first_witness :
  f64.entry [1; 0; 3; 9]%float [2%float] 2%float Rising 0 = Some (steps 2).
Proof.
  apply (exact_target_counts_as_crossing_when_first
           [1; 0; 3; 9]%float [2%float] 2%float Rising 0 2 1%float 3%float).
  - simpl; auto.
  - reflexivity.
  - reflexivity.
  - reflexivity.
  - intros [|[|j']] H; [reflexivity | reflexivity | lia].
Defined.
